(** * Galactocentric radii: [correct_rgc] of gal_radii_pb.py

    The function is a chain of numpy and astropy operations on
    float64 scalars or arrays.  The numbers are modelled as extended
    reals: a finite value, one of the two infinities, or NaN, with the
    rules numpy's non-trapping arithmetic follows for the special
    values.  Finite arithmetic is exact (rounding is not represented)
    and zero carries no sign: a quotient by zero takes the sign of its
    numerator, as it does for the positive zero. *)

From Stdlib Require Import Reals Lra Lia List Bool.
Import ListNotations.

Open Scope R_scope.

(** ** numpy float64 scalars *)

Inductive npfloat : Type :=
| Fin (r : R)
| PInf
| NInf
| NaN.

Inductive sign : Type := Neg | Zero | Pos.

Definition Rsign (r : R) : sign :=
  match total_order_T r 0 with
  | inleft (left _) => Neg
  | inleft (right _) => Zero
  | inright _ => Pos
  end.

Definition sign_of (a : npfloat) : option sign :=
  match a with
  | Fin r => Some (Rsign r)
  | PInf => Some Pos
  | NInf => Some Neg
  | NaN => None
  end.

Definition sign_mul (s t : sign) : sign :=
  match s, t with
  | Zero, _ | _, Zero => Zero
  | Pos, Pos | Neg, Neg => Pos
  | Pos, Neg | Neg, Pos => Neg
  end.

(** An infinity of the given sign; [inf * 0] and [0 / 0] are NaN. *)
Definition signed_inf (s : sign) : npfloat :=
  match s with
  | Pos => PInf
  | Neg => NInf
  | Zero => NaN
  end.

Definition np_neg (a : npfloat) : npfloat :=
  match a with
  | Fin r => Fin (- r)
  | PInf => NInf
  | NInf => PInf
  | NaN => NaN
  end.

Definition np_add (a b : npfloat) : npfloat :=
  match a, b with
  | Fin r, Fin s => Fin (r + s)
  | NaN, _ | _, NaN => NaN
  | PInf, NInf | NInf, PInf => NaN
  | PInf, _ | _, PInf => PInf
  | NInf, _ | _, NInf => NInf
  end.

Definition np_sub (a b : npfloat) : npfloat := np_add a (np_neg b).

(** The product of two numbers is their exact product: it neither
    rounds nor overflows to an infinity as a binary64 product can. *)
Definition np_mul (a b : npfloat) : npfloat :=
  match a, b with
  | Fin r, Fin s => Fin (r * s)
  | _, _ =>
      match sign_of a, sign_of b with
      | Some s, Some t => signed_inf (sign_mul s t)
      | _, _ => NaN
      end
  end.

Definition np_div (a b : npfloat) : npfloat :=
  match a, b with
  | NaN, _ | _, NaN => NaN
  | Fin r, Fin s =>
      match Rsign s with
      | Zero => signed_inf (Rsign r)
      | _ => Fin (r / s)
      end
  | Fin _, _ => Fin 0
  | _, Fin s =>
      match sign_of a with
      | Some t => signed_inf (sign_mul t (match Rsign s with Neg => Neg | _ => Pos end))
      | None => NaN
      end
  | _, _ => NaN
  end.

Definition np_sqrt (a : npfloat) : npfloat :=
  match a with
  | Fin r => match Rsign r with Neg => NaN | _ => Fin (sqrt r) end
  | PInf => PInf
  | _ => NaN
  end.

(** The exact cosine and sine.  A binary64 cosine returns 1.0 for
    arguments close enough to 0 and a small nonzero value at the double
    nearest pi/2; neither effect is represented, so statements that
    hinge on them (strict inequalities between nearby inclinations, the
    value at exactly 90 degrees) are not made about these functions. *)
Definition np_cos (a : npfloat) : npfloat :=
  match a with Fin r => Fin (cos r) | _ => NaN end.

Definition np_sin (a : npfloat) : npfloat :=
  match a with Fin r => Fin (sin r) | _ => NaN end.

Definition np_arctan (a : npfloat) : npfloat :=
  match a with
  | Fin r => Fin (atan r)
  | PInf => Fin (PI / 2)
  | NInf => Fin (- (PI / 2))
  | NaN => NaN
  end.

(** [a < b] as numpy evaluates it: false whenever a NaN is involved. *)
Definition np_lt (a b : npfloat) : bool :=
  match a, b with
  | NaN, _ | _, NaN => false
  | Fin r, Fin s => if Rlt_dec r s then true else false
  | NInf, NInf => false
  | NInf, _ => true
  | _, PInf => match a with PInf => false | _ => true end
  | _, _ => false
  end.

Declare Scope np_scope.
Delimit Scope np_scope with np.
Bind Scope np_scope with npfloat.
Infix "+" := np_add : np_scope.
Infix "-" := np_sub : np_scope.
Infix "*" := np_mul : np_scope.
Infix "/" := np_div : np_scope.

(** ** astropy quantities: angles, sky coordinates, distances *)

Inductive angle_unit : Type := deg | rad | arcmin | arcsec.

(** Size of one unit, in radians. *)
Definition unit_scale (u : angle_unit) : R :=
  match u with
  | rad => 1
  | deg => PI / 180
  | arcmin => PI / 10800
  | arcsec => PI / 648000
  end.

Record Angle : Type := mkAngle { value : npfloat; unit : angle_unit }.

(** [a.to_value(u)]: the value scaled by the ratio of the two units. *)
Definition to_value (a : Angle) (u : angle_unit) : npfloat :=
  (value a * Fin (unit_scale (unit a) / unit_scale u))%np.

Definition radian (a : Angle) : npfloat := to_value a rad.
Definition to_arcmin (a : Angle) : npfloat := to_value a arcmin.
Definition to_arcsec (a : Angle) : npfloat := to_value a arcsec.

(** Sum and difference take the unit of the left operand. *)
Definition angle_add (a b : Angle) : Angle :=
  mkAngle (value a + to_value b (unit a))%np (unit a).

Definition angle_sub (a b : Angle) : Angle :=
  mkAngle (value a - to_value b (unit a))%np (unit a).

(** An angle times a bare float keeps the unit. *)
Definition angle_scale (a : Angle) (k : npfloat) : Angle :=
  mkAngle (value a * k)%np (unit a).

(** A point of the sphere; astropy keeps both components in degrees. *)
Record SkyCoord : Type := mkSkyCoord { ra_deg : R; dec_deg : R }.

Definition ra (c : SkyCoord) : Angle := mkAngle (Fin (ra_deg c)) deg.
Definition dec (c : SkyCoord) : Angle := mkAngle (Fin (dec_deg c)) deg.

(** [np.arctan2] and [np.hypot] on finite arguments. *)
Definition arctan2 (y x : R) : R :=
  match Rsign x with
  | Pos => atan (y / x)
  | Neg => match Rsign y with
           | Neg => atan (y / x) - PI
           | _ => atan (y / x) + PI
           end
  | Zero => match Rsign y with
            | Pos => PI / 2
            | Neg => - (PI / 2)
            | Zero => 0
            end
  end.

Definition hypot (a b : R) : R := sqrt (a * a + b * b).

(** astropy's [angular_separation] (Vincenty formula), arguments and
    result in radians. *)
Definition angular_separation (lon1 lat1 lon2 lat2 : R) : R :=
  let sdlon := sin (lon2 - lon1) in
  let cdlon := cos (lon2 - lon1) in
  let slat1 := sin lat1 in
  let slat2 := sin lat2 in
  let clat1 := cos lat1 in
  let clat2 := cos lat2 in
  let num1 := clat2 * sdlon in
  let num2 := clat1 * slat2 - slat1 * clat2 * cdlon in
  let denominator := slat1 * slat2 + clat1 * clat2 * cdlon in
  arctan2 (hypot num1 num2) denominator.

Definition deg2rad (d : R) : R := d * (PI / 180).
Definition rad2deg (r : R) : R := r * (180 / PI).

(** [self.separation(other)]: an [Angle] in degrees. *)
Definition separation (self other : SkyCoord) : Angle :=
  mkAngle
    (Fin (rad2deg (angular_separation
                     (deg2rad (ra_deg self)) (deg2rad (dec_deg self))
                     (deg2rad (ra_deg other)) (deg2rad (dec_deg other)))))
    deg.

Inductive length_unit : Type := pc | kpc | Mpc | lyr | km.

Record Distance : Type := mkDistance { dvalue : npfloat; dunit : length_unit }.

(** Outcome of a call that may raise. *)
Inductive result (A : Type) : Type :=
| Ok (a : A)
| ValueError.
Arguments Ok {A} a.
Arguments ValueError {A}.

(** [Distance(v, unit=u)] refuses a negative value. *)
Definition Distance_new (v : npfloat) (u : length_unit) : result Distance :=
  if np_lt v (Fin 0) then ValueError else Ok (mkDistance v u).

(** ** The function *)

Module Rgc.
Section Steps.

Variables (coord glx_ctr : SkyCoord) (glx_PA glx_incl : Angle).

(* sky_radius = glx_ctr.separation(coord) *)
Definition sky_radius : Angle := separation glx_ctr coord.

(* avg_dec = 0.5 * (glx_ctr.dec + coord.dec).radian *)
Definition avg_dec : npfloat :=
  (Fin (1 / 2) * radian (angle_add (dec glx_ctr) (dec coord)))%np.

(* x = (glx_ctr.ra - coord.ra) * np.cos(avg_dec) *)
Definition x : Angle :=
  angle_scale (angle_sub (ra glx_ctr) (ra coord)) (np_cos avg_dec).

(* y = glx_ctr.dec - coord.dec *)
Definition y : Angle := angle_sub (dec glx_ctr) (dec coord).

(* np.arctan(y.arcsec / x.arcsec) *)
Definition arctan_step : npfloat :=
  np_arctan (to_arcsec y / to_arcsec x)%np.

(* phi = glx_PA - Angle('90d') + Angle(np.arctan(...), unit=u.rad) *)
Definition phi : Angle :=
  angle_add (angle_sub glx_PA (mkAngle (Fin 90) deg))
            (mkAngle arctan_step rad).

(* xp = (sky_radius * np.cos(phi.radian)).arcmin *)
Definition xp : npfloat :=
  to_arcmin (angle_scale sky_radius (np_cos (radian phi))).

(* yp = (sky_radius * np.sin(phi.radian)).arcmin *)
Definition yp : npfloat :=
  to_arcmin (angle_scale sky_radius (np_sin (radian phi))).

(* if deproject: ypp = yp / np.cos(glx_incl.radian)  else: ypp = yp *)
Definition ypp (deproject : bool) : npfloat :=
  if deproject then (yp / np_cos (radian glx_incl))%np else yp.

(* obj_radius = np.sqrt(xp ** 2 + ypp ** 2) *)
Definition obj_radius (deproject : bool) : npfloat :=
  np_sqrt (xp * xp + ypp deproject * ypp deproject)%np.

End Steps.
End Rgc.

(* obj_dist = Distance(Angle(obj_radius, unit=u.arcmin).radian * glx_dist,
                       unit=glx_dist.unit)
   The disk-plane angle obj_phi computed afterwards is not returned and
   its numpy operations cannot raise, so it has no part in the result. *)
Definition correct_rgc (coord glx_ctr : SkyCoord) (glx_PA glx_incl : Angle)
    (glx_dist : Distance) (deproject : bool) : result Distance :=
  let obj_radius := Rgc.obj_radius coord glx_ctr glx_PA glx_incl deproject in
  Distance_new
    (radian (mkAngle obj_radius arcmin) * dvalue glx_dist)%np
    (dunit glx_dist).

(** ** Array input

    With an array of coordinates every numpy operation of the function
    acts element by element, a scalar operand being broadcast. *)

Fixpoint zip_with {A B C : Type} (f : A -> B -> C) (l : list A) (m : list B)
  : list C :=
  match l, m with
  | a :: l', b :: m' => f a b :: zip_with f l' m'
  | _, _ => []
  end.

Record AngleArray : Type :=
  mkAngleArray { avalues : list npfloat; aaunit : angle_unit }.

Record DistanceArray : Type :=
  mkDistanceArray { dvalues : list npfloat; daunit : length_unit }.

Definition to_value_array (a : AngleArray) (u : angle_unit) : list npfloat :=
  map (fun w => (w * Fin (unit_scale (aaunit a) / unit_scale u))%np)
      (avalues a).

Definition radian_array (a : AngleArray) : list npfloat := to_value_array a rad.
Definition to_arcmin_array (a : AngleArray) : list npfloat :=
  to_value_array a arcmin.
Definition to_arcsec_array (a : AngleArray) : list npfloat :=
  to_value_array a arcsec.

(** A scalar angle plus or minus an array of angles. *)
Definition angle_add_array (a : Angle) (b : AngleArray) : AngleArray :=
  mkAngleArray (map (fun w => (value a + w)%np) (to_value_array b (unit a)))
               (unit a).

Definition angle_sub_array (a : Angle) (b : AngleArray) : AngleArray :=
  mkAngleArray (map (fun w => (value a - w)%np) (to_value_array b (unit a)))
               (unit a).

Definition angle_scale_array (a : AngleArray) (k : list npfloat) : AngleArray :=
  mkAngleArray (zip_with np_mul (avalues a) k) (aaunit a).

Definition ra_array (cs : list SkyCoord) : AngleArray :=
  mkAngleArray (map (fun c => Fin (ra_deg c)) cs) deg.

Definition dec_array (cs : list SkyCoord) : AngleArray :=
  mkAngleArray (map (fun c => Fin (dec_deg c)) cs) deg.

Definition separation_array (self : SkyCoord) (others : list SkyCoord)
  : AngleArray :=
  mkAngleArray (map (fun c => value (separation self c)) others) deg.

(** [Distance(v, unit=u)] on an array: [np.any(v < 0)] raises. *)
Definition Distance_new_array (v : list npfloat) (u : length_unit)
  : result DistanceArray :=
  if existsb (fun w => np_lt w (Fin 0)) v
  then ValueError
  else Ok (mkDistanceArray v u).

Definition correct_rgc_array (coord : list SkyCoord) (glx_ctr : SkyCoord)
    (glx_PA glx_incl : Angle) (glx_dist : Distance) (deproject : bool)
  : result DistanceArray :=
  let sky_radius := separation_array glx_ctr coord in
  let avg_dec :=
    map (fun w => (Fin (1 / 2) * w)%np)
        (radian_array (angle_add_array (dec glx_ctr) (dec_array coord))) in
  let x :=
    angle_scale_array (angle_sub_array (ra glx_ctr) (ra_array coord))
                      (map np_cos avg_dec) in
  let y := angle_sub_array (dec glx_ctr) (dec_array coord) in
  let phi :=
    angle_add_array
      (angle_sub glx_PA (mkAngle (Fin 90) deg))
      (mkAngleArray
         (map np_arctan
              (zip_with np_div (to_arcsec_array y) (to_arcsec_array x)))
         rad) in
  let xp :=
    to_arcmin_array
      (angle_scale_array sky_radius (map np_cos (radian_array phi))) in
  let yp :=
    to_arcmin_array
      (angle_scale_array sky_radius (map np_sin (radian_array phi))) in
  let ypp :=
    if deproject
    then map (fun w => (w / np_cos (radian glx_incl))%np) yp
    else yp in
  let obj_radius :=
    map np_sqrt
        (zip_with np_add (zip_with np_mul xp xp) (zip_with np_mul ypp ypp)) in
  Distance_new_array
    (map (fun w => (w * dvalue glx_dist)%np)
         (radian_array (mkAngleArray obj_radius arcmin)))
    (dunit glx_dist).

(** ** The design-level steps of the specification

  Plain numbers, all angles in radians except the two offsets, which
  keep the degrees of the coordinates (only their ratio is used). *)

Module Spec.

(** Great-circle separation of two points, in radians (spherical law
    of cosines). *)
Definition great_circle (center coord : SkyCoord) : R :=
  let a1 := deg2rad (ra_deg center) in
  let d1 := deg2rad (dec_deg center) in
  let a2 := deg2rad (ra_deg coord) in
  let d2 := deg2rad (dec_deg coord) in
  acos (sin d1 * sin d2 + cos d1 * cos d2 * cos (a1 - a2)).

Definition mean_dec (center coord : SkyCoord) : R :=
  (dec_deg center + dec_deg coord) / 2.

Definition x_offset (center coord : SkyCoord) : R :=
  (ra_deg center - ra_deg coord) * cos (deg2rad (mean_dec center coord)).

Definition y_offset (center coord : SkyCoord) : R :=
  dec_deg center - dec_deg coord.

(** phi = position_angle - 90 degrees + arctan (y / x) *)
Definition phi_target (center coord : SkyCoord) (position_angle : R) : npfloat :=
  (Fin position_angle - Fin (PI / 2)
   + np_arctan (Fin (y_offset center coord) / Fin (x_offset center coord)))%np.

Definition rad2arcmin (r : R) : R := r * (10800 / PI).
Definition arcmin2rad (a : npfloat) : npfloat := (a * Fin (PI / 10800))%np.

Definition x' (center coord : SkyCoord) (position_angle : R) : npfloat :=
  (Fin (rad2arcmin (great_circle center coord))
   * np_cos (phi_target center coord position_angle))%np.

Definition y' (center coord : SkyCoord) (position_angle : R) : npfloat :=
  (Fin (rad2arcmin (great_circle center coord))
   * np_sin (phi_target center coord position_angle))%np.

Definition y'' (center coord : SkyCoord) (position_angle inclination : R)
    (deproject : bool) : npfloat :=
  if deproject
  then (y' center coord position_angle / np_cos (Fin inclination))%np
  else y' center coord position_angle.

Definition radius (center coord : SkyCoord)
    (position_angle inclination : R) (deproject : bool) : npfloat :=
  let xr := x' center coord position_angle in
  let yr := y'' center coord position_angle inclination deproject in
  np_sqrt (xr * xr + yr * yr)%np.

(** result = radius in radians times the distance, in its unit *)
Definition galactocentric_distance (coord center : SkyCoord)
    (position_angle inclination : R) (distance : Distance)
    (deproject : bool) : Distance :=
  mkDistance
    (arcmin2rad (radius center coord position_angle inclination deproject)
     * dvalue distance)%np
    (dunit distance).

End Spec.

(** ** Predicates and concrete inputs used in the statements *)

(** The number handed to the [Distance] constructor for one coordinate. *)
Definition rgc_value (glx_ctr : SkyCoord) (glx_PA glx_incl : Angle)
    (glx_dist : Distance) (deproject : bool) (c : SkyCoord) : npfloat :=
  (radian (mkAngle (Rgc.obj_radius c glx_ctr glx_PA glx_incl deproject) arcmin)
   * dvalue glx_dist)%np.

(** Values the final [Distance] constructor lets through when they come
    out of a square root: a non-negative number, plus infinity, or NaN. *)
Definition nonneg_or_nan (a : npfloat) : Prop :=
  match a with
  | Fin r => 0 <= r
  | PInf | NaN => True
  | NInf => False
  end.

(** [a <= b] as numpy evaluates it. *)
Definition np_le (a b : npfloat) : bool :=
  match a, b with
  | NaN, _ | _, NaN => false
  | Fin r, Fin s => if Rle_dec r s then true else false
  | NInf, _ => true
  | _, PInf => true
  | _, _ => false
  end.

(** A value that signals a domain error. *)
Definition is_special (a : npfloat) : Prop :=
  match a with
  | Fin _ => False
  | _ => True
  end.

Definition cos_incl (i : R) : R := cos (i * unit_scale deg).

(** The center of the scenario, RA 10h42m44.33s, Dec +41d16m07.5s, and
    the target 0.1 degree north of it. *)
Definition scenario_center : SkyCoord :=
  mkSkyCoord (15 * (10 + 42 / 60 + 44.33 / 3600)) (41 + 16 / 60 + 7.5 / 3600).

Definition scenario_target : SkyCoord :=
  mkSkyCoord (ra_deg scenario_center) (dec_deg scenario_center + 0.1).

Definition scenario_PA : Angle := mkAngle (Fin 37.7) deg.
Definition scenario_phi : R := 37.7 * (PI / 180) - PI.

(** Both offsets vanish only where the quotient of the arctangent step
    is 0 / 0. *)
Definition off_singularity (coord glx_ctr : SkyCoord) : Prop :=
  value (Rgc.x coord glx_ctr) <> Fin 0 \/ value (Rgc.y coord glx_ctr) <> Fin 0.

(** The same galaxy parameters with the position angle or the
    inclination given in degrees. *)
Definition PA_deg (pa : R) : Angle := mkAngle (Fin pa) deg.
Definition incl_deg (i : R) : Angle := mkAngle (Fin i) deg.

(** The projected result of the scenario, in kpc. *)
Definition scenario_projected : R :=
  sqrt (6 * cos scenario_phi * (6 * cos scenario_phi)
        + 6 * sin scenario_phi * (6 * sin scenario_phi))
  * (PI / 10800) * 783.

(** ** Elementary facts about the number model *)

Lemma Rsign_cases (r : R) :
  (r < 0 /\ Rsign r = Neg) \/ (r = 0 /\ Rsign r = Zero) \/ (0 < r /\ Rsign r = Pos).
Proof.
  unfold Rsign.
  destruct (total_order_T r 0) as [[Hlt | Heq] | Hgt]; auto.
Qed.

Lemma Rsign_pos (r : R) : 0 < r -> Rsign r = Pos.
Proof.
  intros H. destruct (Rsign_cases r) as [[H1 _] | [[H1 _] | [_ H1]]]; auto; lra.
Qed.

Lemma Rsign_neg (r : R) : r < 0 -> Rsign r = Neg.
Proof.
  intros H. destruct (Rsign_cases r) as [[_ H1] | [[H1 _] | [H1 _]]]; auto; lra.
Qed.

Lemma Rsign_zero : Rsign 0 = Zero.
Proof.
  destruct (Rsign_cases 0) as [[H1 _] | [[_ H1] | [H1 _]]]; auto; lra.
Qed.

Lemma Rsign_scale (r k : R) : 0 < k -> Rsign (r * k) = Rsign r.
Proof.
  intros Hk.
  destruct (Rsign_cases r) as [[H E] | [[H E] | [H E]]]; rewrite E.
  - apply Rsign_neg. nra.
  - subst r. rewrite Rmult_0_l. apply Rsign_zero.
  - apply Rsign_pos. nra.
Qed.

Lemma np_add_NaN_r (a : npfloat) : (a + NaN)%np = NaN.
Proof. destruct a; reflexivity. Qed.

Lemma np_div_nonzero (r s : R) : s <> 0 -> (Fin r / Fin s)%np = Fin (r / s).
Proof.
  intros Hs. unfold np_div.
  destruct (Rsign_cases s) as [[H E] | [[H E] | [H E]]]; rewrite E; auto; lra.
Qed.

Lemma np_div_zero (r : R) : (Fin r / Fin 0)%np = signed_inf (Rsign r).
Proof. unfold np_div. now rewrite Rsign_zero. Qed.

(** A common positive factor cancels in a quotient, special values
    included: the ratio of two angles does not depend on their unit. *)
Lemma np_div_scale (r s k : R) :
  0 < k -> (Fin (r * k) / Fin (s * k))%np = (Fin r / Fin s)%np.
Proof.
  intros Hk. unfold np_div.
  rewrite !Rsign_scale by assumption.
  destruct (Rsign_cases s) as [[H E] | [[H E] | [H E]]]; rewrite E; auto;
    f_equal; field; lra.
Qed.

Lemma np_div_one (a : npfloat) : (a / Fin 1)%np = a.
Proof.
  destruct a as [r | | |]; unfold np_div; simpl;
    rewrite ?(Rsign_pos 1) by lra; auto.
  f_equal. field.
Qed.

Lemma np_arctan_not_inf (a : npfloat) :
  np_arctan a = NaN \/ exists r, np_arctan a = Fin r.
Proof. destruct a; simpl; eauto. Qed.

Lemma np_sqrt_nonneg (r : R) : 0 <= r -> np_sqrt (Fin r) = Fin (sqrt r).
Proof.
  intros H. unfold np_sqrt.
  destruct (Rsign_cases r) as [[H1 E] | [[H1 E] | [H1 E]]]; rewrite E; auto; lra.
Qed.

Lemma unit_scale_pos (u : angle_unit) : 0 < unit_scale u.
Proof.
  pose proof PI_RGT_0. destruct u; simpl; lra.
Qed.

(** ** The separation is the great-circle angle *)

Lemma cos_pos_below_half_pi (t : R) : 0 <= t <= PI -> 0 < cos t -> t < PI / 2.
Proof.
  intros [H0 H1] Hc.
  destruct (Rlt_dec t (PI / 2)) as [Hlt | Hge]; auto.
  assert (cos t <= 0) by (apply cos_le_0; lra).
  lra.
Qed.

Lemma cos_neg_above_half_pi (t : R) : 0 <= t <= PI -> cos t < 0 -> PI / 2 < t.
Proof.
  intros [H0 H1] Hc.
  destruct (Rlt_dec (PI / 2) t) as [Hlt | Hge]; auto.
  assert (0 <= cos t) by (apply cos_ge_0; lra).
  lra.
Qed.

Lemma cos_zero_half_pi (t : R) : 0 <= t <= PI -> cos t = 0 -> t = PI / 2.
Proof.
  intros [H0 H1] Hc.
  destruct (Rtotal_order t (PI / 2)) as [Hlt | [Heq | Hgt]]; auto.
  - assert (0 < cos t) by (apply cos_gt_0; lra). lra.
  - assert (cos t < 0) by (apply cos_lt_0; lra). lra.
Qed.

(** On the upper half circle [arctan2] recovers the angle. *)
Lemma arctan2_sin_cos (t : R) : 0 <= t <= PI -> arctan2 (sin t) (cos t) = t.
Proof.
  intros Ht. unfold arctan2.
  destruct (Rsign_cases (cos t)) as [[Hc E] | [[Hc E] | [Hc E]]]; rewrite E.
  - (* second quadrant *)
    pose proof (cos_neg_above_half_pi t Ht Hc) as Hgt.
    assert (Hs : 0 <= sin t) by (apply sin_ge_0; lra).
    assert (Hat : atan (sin t / cos t) = t - PI).
    { rewrite <- (atan_tan (t - PI)) by lra.
      f_equal. unfold tan, Rminus.
      rewrite sin_plus, cos_plus, sin_neg, cos_neg, sin_PI, cos_PI.
      field. lra. }
    destruct (Rsign_cases (sin t)) as [[Hs' E'] | [[Hs' E'] | [Hs' E']]];
      rewrite E'; lra.
  - pose proof (cos_zero_half_pi t Ht Hc) as Heq.
    rewrite Heq, sin_PI2, (Rsign_pos 1) by lra. reflexivity.
  - pose proof (cos_pos_below_half_pi t Ht Hc) as Hlt.
    change (sin t / cos t) with (tan t).
    apply atan_tan. lra.
Qed.

Lemma vincenty_norm (s1 c1 s2 c2 sd cd : R) :
  s1 * s1 + c1 * c1 = 1 -> s2 * s2 + c2 * c2 = 1 -> sd * sd + cd * cd = 1 ->
  let num1 := c2 * sd in
  let num2 := c1 * s2 - s1 * c2 * cd in
  let den := s1 * s2 + c1 * c2 * cd in
  num1 * num1 + num2 * num2 = 1 - den * den.
Proof.
  intros H1 H2 H3 num1 num2 den. subst num1 num2 den.
  apply Rminus_diag_uniq.
  transitivity (c2 * c2 * (sd * sd + cd * cd - 1) + (s2 * s2 + c2 * c2 - 1)
                + (s1 * s1 + c1 * c1 - 1) * (s2 * s2 + c2 * c2 * cd * cd)).
  - ring.
  - rewrite H1, H2, H3. ring.
Qed.

Lemma sin_cos_one (t : R) : sin t * sin t + cos t * cos t = 1.
Proof. pose proof (sin2_cos2 t) as H. unfold Rsqr in H. exact H. Qed.

(** astropy's Vincenty formula computes the angle of the spherical law
    of cosines, for every pair of points. *)
Lemma angular_separation_great_circle (lon1 lat1 lon2 lat2 : R) :
  angular_separation lon1 lat1 lon2 lat2
  = acos (sin lat1 * sin lat2 + cos lat1 * cos lat2 * cos (lon1 - lon2)).
Proof.
  unfold angular_separation, hypot.
  replace (cos (lon1 - lon2)) with (cos (lon2 - lon1))
    by (rewrite (cos_sym (lon2 - lon1)); f_equal; ring).
  set (den := sin lat1 * sin lat2 + cos lat1 * cos lat2 * cos (lon2 - lon1)).
  pose proof (vincenty_norm _ _ _ _ _ _ (sin_cos_one lat1) (sin_cos_one lat2)
                (sin_cos_one (lon2 - lon1))) as Hn.
  cbv zeta in Hn. fold den in Hn. rewrite Hn.
  assert (Hden : -1 <= den <= 1).
  { assert (0 <= 1 - den * den).
    { rewrite <- Hn. apply Rplus_le_le_0_compat; apply Rle_0_sqr. }
    nra. }
  replace (1 - den * den) with (1 - den²) by (unfold Rsqr; ring).
  rewrite <- (sin_acos den Hden).
  rewrite <- (cos_acos den Hden) at 2.
  apply arctan2_sin_cos, acos_bound.
Qed.

Lemma separation_great_circle (center coord : SkyCoord) :
  separation center coord
  = mkAngle (Fin (rad2deg (Spec.great_circle center coord))) deg.
Proof.
  unfold separation, Spec.great_circle.
  now rewrite angular_separation_great_circle.
Qed.

(** ** Closed forms of the steps *)

Arguments np_div : simpl never.
Arguments np_sqrt : simpl never.
Arguments np_arctan : simpl never.

Section ClosedForms.

Variables coord glx_ctr : SkyCoord.

Lemma avg_dec_value :
  Rgc.avg_dec coord glx_ctr = Fin (deg2rad (Spec.mean_dec glx_ctr coord)).
Proof.
  pose proof PI_RGT_0.
  unfold Rgc.avg_dec, radian, to_value, angle_add, dec, deg2rad, Spec.mean_dec.
  simpl. f_equal. field. lra.
Qed.

Lemma x_value : Rgc.x coord glx_ctr = mkAngle (Fin (Spec.x_offset glx_ctr coord)) deg.
Proof.
  pose proof PI_RGT_0.
  unfold Rgc.x. rewrite avg_dec_value.
  unfold angle_scale, angle_sub, to_value, ra, Spec.x_offset. simpl.
  do 2 f_equal. field. lra.
Qed.

Lemma y_value : Rgc.y coord glx_ctr = mkAngle (Fin (Spec.y_offset glx_ctr coord)) deg.
Proof.
  pose proof PI_RGT_0.
  unfold Rgc.y, angle_sub, to_value, dec, Spec.y_offset. simpl.
  do 2 f_equal. field. lra.
Qed.

(** The ratio taken in arcseconds is the ratio of the offsets. *)
Lemma arctan_step_value :
  Rgc.arctan_step coord glx_ctr
  = np_arctan (Fin (Spec.y_offset glx_ctr coord) / Fin (Spec.x_offset glx_ctr coord))%np.
Proof.
  unfold Rgc.arctan_step. rewrite x_value, y_value.
  unfold to_arcsec, to_value. simpl.
  rewrite np_div_scale; auto.
  pose proof PI_RGT_0.
  apply Rdiv_lt_0_compat; lra.
Qed.

Lemma radian_phi (pa : R) (u : angle_unit) :
  radian (Rgc.phi coord glx_ctr (mkAngle (Fin pa) u))
  = Spec.phi_target glx_ctr coord (pa * unit_scale u).
Proof.
  pose proof PI_RGT_0. pose proof (unit_scale_pos u).
  unfold Rgc.phi, Spec.phi_target. rewrite arctan_step_value.
  destruct (np_arctan_not_inf
              (Fin (Spec.y_offset glx_ctr coord) / Fin (Spec.x_offset glx_ctr coord))%np)
    as [E | [a E]]; rewrite E; clear E.
  - reflexivity.
  - unfold radian, to_value, angle_add, angle_sub. simpl.
    f_equal. field. lra.
Qed.

Lemma sky_radius_arcmin (k : npfloat) :
  to_arcmin (angle_scale (Rgc.sky_radius coord glx_ctr) k)
  = (Fin (Spec.rad2arcmin (Spec.great_circle glx_ctr coord)) * k)%np.
Proof.
  pose proof PI_RGT_0.
  unfold Rgc.sky_radius. rewrite separation_great_circle.
  unfold to_arcmin, to_value, angle_scale, Spec.rad2arcmin, rad2deg. simpl.
  set (g := Spec.great_circle glx_ctr coord).
  assert (E1 : PI / 180 / (PI / 10800) = 60) by (field; lra).
  assert (E2 : g * (10800 / PI) = g * (180 / PI) * 60) by (field; lra).
  rewrite E1, E2.
  destruct k as [r | | |]; simpl.
  - f_equal. ring.
  - rewrite (Rsign_scale _ 60) by lra.
    destruct (Rsign (g * (180 / PI))); simpl;
      rewrite ?(Rsign_pos 60) by lra; reflexivity.
  - rewrite (Rsign_scale _ 60) by lra.
    destruct (Rsign (g * (180 / PI))); simpl;
      rewrite ?(Rsign_pos 60) by lra; reflexivity.
  - reflexivity.
Qed.

Lemma xp_value (pa : R) (u : angle_unit) :
  Rgc.xp coord glx_ctr (mkAngle (Fin pa) u)
  = Spec.x' glx_ctr coord (pa * unit_scale u).
Proof.
  unfold Rgc.xp, Spec.x'. now rewrite sky_radius_arcmin, radian_phi.
Qed.

Lemma yp_value (pa : R) (u : angle_unit) :
  Rgc.yp coord glx_ctr (mkAngle (Fin pa) u)
  = Spec.y' glx_ctr coord (pa * unit_scale u).
Proof.
  unfold Rgc.yp, Spec.y'. now rewrite sky_radius_arcmin, radian_phi.
Qed.

Lemma radian_Fin (r : R) (u : angle_unit) :
  radian (mkAngle (Fin r) u) = Fin (r * unit_scale u).
Proof.
  unfold radian, to_value. simpl. f_equal. field.
Qed.

Lemma ypp_value (pa incl : R) (u v : angle_unit) (deproject : bool) :
  Rgc.ypp coord glx_ctr (mkAngle (Fin pa) u) (mkAngle (Fin incl) v) deproject
  = Spec.y'' glx_ctr coord (pa * unit_scale u) (incl * unit_scale v) deproject.
Proof.
  unfold Rgc.ypp, Spec.y''. now rewrite yp_value, radian_Fin.
Qed.

Lemma obj_radius_value (pa incl : R) (u v : angle_unit) (deproject : bool) :
  Rgc.obj_radius coord glx_ctr (mkAngle (Fin pa) u) (mkAngle (Fin incl) v)
    deproject
  = Spec.radius glx_ctr coord (pa * unit_scale u) (incl * unit_scale v)
      deproject.
Proof.
  unfold Rgc.obj_radius, Spec.radius. now rewrite xp_value, ypp_value.
Qed.

End ClosedForms.

(** ** Sign of the result *)

Lemma np_sqrt_nonneg_or_nan (a : npfloat) : nonneg_or_nan (np_sqrt a).
Proof.
  destruct a as [r | | |]; simpl; auto.
  unfold np_sqrt. destruct (Rsign r); simpl; auto using sqrt_pos.
Qed.

Lemma np_mul_nonneg_or_nan (a : npfloat) (k : R) :
  nonneg_or_nan a -> 0 <= k -> nonneg_or_nan (a * Fin k)%np.
Proof.
  destruct a as [r | | |]; simpl; intros Ha Hk; auto.
  - now apply Rmult_le_pos.
  - destruct (Rsign_cases k) as [[H E] | [[H E] | [H E]]]; rewrite E; simpl;
      auto; lra.
  - contradiction.
Qed.

Lemma nonneg_or_nan_not_lt (a : npfloat) :
  nonneg_or_nan a -> np_lt a (Fin 0) = false.
Proof.
  destruct a as [r | | |]; simpl; intros Ha; auto.
  - destruct (Rlt_dec r 0); auto; lra.
  - contradiction.
Qed.

Lemma radian_arcmin (a : npfloat) :
  radian (mkAngle a arcmin) = Spec.arcmin2rad a.
Proof.
  unfold radian, to_value, Spec.arcmin2rad. simpl.
  do 2 f_equal. field.
Qed.

(** With a non-negative galaxy distance the constructor never raises. *)
Lemma correct_rgc_returns (coord glx_ctr : SkyCoord) (glx_PA glx_incl : Angle)
    (d : R) (lu : length_unit) (deproject : bool) :
  0 <= d ->
  correct_rgc coord glx_ctr glx_PA glx_incl (mkDistance (Fin d) lu) deproject
  = Ok (mkDistance
          (Spec.arcmin2rad
             (Rgc.obj_radius coord glx_ctr glx_PA glx_incl deproject)
           * Fin d)%np
          lu).
Proof.
  intros Hd. unfold correct_rgc, Distance_new. simpl.
  rewrite radian_arcmin.
  rewrite nonneg_or_nan_not_lt; auto.
  pose proof PI_RGT_0.
  apply np_mul_nonneg_or_nan; auto.
  apply np_mul_nonneg_or_nan; [apply np_sqrt_nonneg_or_nan | lra].
Qed.

(** ** C1: the function computes the design-level steps *)

(** C1. For every input with finite angles and a non-negative galaxy
    distance, [correct_rgc] returns the composition of the design-level
    steps of the specification: great-circle separation, small-angle
    offsets, phi = PA - 90 degrees + arctan (y / x), the rotated
    components in arcminutes, the optional division by cos (inclination),
    the planar radius, and the radius in radians times the distance, in
    the unit of the distance. *)
Theorem correct_rgc_is_spec_composition
    (coord glx_ctr : SkyCoord) (pa incl : R) (u v : angle_unit)
    (d : R) (lu : length_unit) (deproject : bool) :
  0 <= d ->
  correct_rgc coord glx_ctr (mkAngle (Fin pa) u) (mkAngle (Fin incl) v)
    (mkDistance (Fin d) lu) deproject
  = Ok (Spec.galactocentric_distance coord glx_ctr
          (pa * unit_scale u) (incl * unit_scale v)
          (mkDistance (Fin d) lu) deproject).
Proof.
  intros Hd.
  rewrite correct_rgc_returns by assumption.
  rewrite obj_radius_value.
  reflexivity.
Qed.

Lemma correct_rgc_is_spec_composition_witness :
  0 <= 783 /\
  correct_rgc scenario_target scenario_center
    (mkAngle (Fin 37.7) deg) (mkAngle (Fin 77.5) deg)
    (mkDistance (Fin 783) kpc) true
  = Ok (Spec.galactocentric_distance scenario_target scenario_center
          (37.7 * unit_scale deg) (77.5 * unit_scale deg)
          (mkDistance (Fin 783) kpc) true).
Proof.
  split; [lra | apply (correct_rgc_is_spec_composition
                         scenario_target scenario_center 37.7 77.5 deg deg
                         783 kpc true); lra].
Defined.

(** ** C2: the center itself *)

Lemma arctan_step_at_center (c : SkyCoord) : Rgc.arctan_step c c = NaN.
Proof.
  rewrite arctan_step_value.
  replace (Spec.x_offset c c) with 0 by (unfold Spec.x_offset; ring).
  replace (Spec.y_offset c c) with 0 by (unfold Spec.y_offset; ring).
  rewrite np_div_zero, Rsign_zero. reflexivity.
Qed.

Lemma obj_radius_at_center (c : SkyCoord) (glx_PA glx_incl : Angle)
    (deproject : bool) :
  Rgc.obj_radius c c glx_PA glx_incl deproject = NaN.
Proof.
  unfold Rgc.obj_radius.
  assert (E : Rgc.xp c c glx_PA = NaN).
  { unfold Rgc.xp, Rgc.phi. rewrite arctan_step_at_center.
    unfold radian, to_arcmin, to_value, angle_scale, angle_add. simpl.
    now rewrite np_add_NaN_r. }
  now rewrite E.
Qed.

Lemma correct_rgc_at_center (c : SkyCoord) (glx_PA glx_incl : Angle)
    (glx_dist : Distance) (deproject : bool) :
  correct_rgc c c glx_PA glx_incl glx_dist deproject
  = Ok (mkDistance NaN (dunit glx_dist)).
Proof.
  unfold correct_rgc. rewrite obj_radius_at_center.
  reflexivity.
Qed.

(** C2, on the code.  With the coordinate equal to the center both
    offsets are zero, the quotient y / x is 0 / 0, and the NaN it gives
    reaches the result: for every position angle, inclination, distance
    and flag the call returns a NaN distance, not 0. *)
Theorem correct_rgc_center_is_nan (c : SkyCoord) (glx_PA glx_incl : Angle)
    (glx_dist : Distance) (deproject : bool) :
  correct_rgc c c glx_PA glx_incl glx_dist deproject
  = Ok (mkDistance NaN (dunit glx_dist))
  /\ correct_rgc c c glx_PA glx_incl glx_dist deproject
     <> Ok (mkDistance (Fin 0) (dunit glx_dist)).
Proof.
  rewrite correct_rgc_at_center. split; [reflexivity | discriminate].
Qed.

(** ** C6 and C8: the deprojection switch *)

(** C6. With an inclination of exactly 0 degrees the calls with and
    without deprojection return the same result, for every coordinate,
    center, position angle and distance. *)
Theorem deproject_noop_at_zero_inclination (coord glx_ctr : SkyCoord)
    (glx_PA : Angle) (glx_dist : Distance) :
  correct_rgc coord glx_ctr glx_PA (mkAngle (Fin 0) deg) glx_dist true
  = correct_rgc coord glx_ctr glx_PA (mkAngle (Fin 0) deg) glx_dist false.
Proof.
  unfold correct_rgc, Rgc.obj_radius, Rgc.ypp.
  rewrite radian_Fin. simpl np_cos.
  rewrite Rmult_0_l, cos_0, np_div_one.
  reflexivity.
Qed.

(** C8. Without deprojection the inclination is never read: two calls
    that differ only in [glx_incl] return the same value. *)
Theorem projected_radius_ignores_inclination (coord glx_ctr : SkyCoord)
    (glx_PA glx_incl glx_incl' : Angle) (glx_dist : Distance) :
  correct_rgc coord glx_ctr glx_PA glx_incl glx_dist false
  = correct_rgc coord glx_ctr glx_PA glx_incl' glx_dist false.
Proof.
  unfold correct_rgc, Rgc.obj_radius, Rgc.ypp.
  reflexivity.
Qed.

(** ** C4: a target with x = 0 *)

Lemma scenario_x_zero :
  Rgc.x scenario_target scenario_center = mkAngle (Fin 0) deg.
Proof.
  rewrite x_value. do 2 f_equal.
  unfold Spec.x_offset, scenario_target. simpl ra_deg.
  rewrite Rminus_diag. apply Rmult_0_l.
Qed.

Lemma scenario_y : Spec.y_offset scenario_center scenario_target = - 0.1.
Proof. unfold Spec.y_offset, scenario_target. simpl. lra. Qed.

Lemma scenario_arctan_step :
  Rgc.arctan_step scenario_target scenario_center = Fin (- (PI / 2)).
Proof.
  rewrite arctan_step_value, scenario_y.
  replace (Spec.x_offset scenario_center scenario_target) with 0
    by (unfold Spec.x_offset, scenario_target; simpl ra_deg;
        rewrite Rminus_diag; ring).
  rewrite np_div_zero, Rsign_neg by lra.
  reflexivity.
Qed.

(** C4, as stated, fails: for the target 0.1 degree north of the
    center the offset x is exactly zero and the arctangent step is the
    ordinary number -pi/2, not an infinity or a NaN. *)
Lemma arctan_step_x_zero_ordinary :
  value (Rgc.x scenario_target scenario_center) = Fin 0
  /\ ~ is_special (Rgc.arctan_step scenario_target scenario_center).
Proof.
  rewrite scenario_x_zero, scenario_arctan_step. simpl. tauto.
Qed.

(** C4, amended.  When the offset x is exactly zero the quotient y / x
    is an infinity with the sign of y, and the arctangent step returns
    pi/2 or -pi/2 without raising; it is NaN only when y is zero too. *)
Theorem arctan_step_when_x_zero (coord glx_ctr : SkyCoord) :
  value (Rgc.x coord glx_ctr) = Fin 0 ->
  let y := dec_deg glx_ctr - dec_deg coord in
  (0 < y -> Rgc.arctan_step coord glx_ctr = Fin (PI / 2))
  /\ (y < 0 -> Rgc.arctan_step coord glx_ctr = Fin (- (PI / 2)))
  /\ (y = 0 -> Rgc.arctan_step coord glx_ctr = NaN).
Proof.
  intros Hx y.
  rewrite x_value in Hx. simpl in Hx. injection Hx as Hx.
  rewrite arctan_step_value, Hx, np_div_zero.
  change (Spec.y_offset glx_ctr coord) with y.
  repeat split; intros Hy.
  - now rewrite Rsign_pos.
  - now rewrite Rsign_neg.
  - now rewrite Hy, Rsign_zero.
Qed.

Lemma arctan_step_when_x_zero_witness :
  value (Rgc.x scenario_target scenario_center) = Fin 0
  /\ (let y := dec_deg scenario_center - dec_deg scenario_target in
      (0 < y -> Rgc.arctan_step scenario_target scenario_center = Fin (PI / 2))
      /\ (y < 0 ->
          Rgc.arctan_step scenario_target scenario_center = Fin (- (PI / 2)))
      /\ (y = 0 -> Rgc.arctan_step scenario_target scenario_center = NaN)).
Proof.
  assert (H : value (Rgc.x scenario_target scenario_center) = Fin 0)
    by (rewrite scenario_x_zero; reflexivity).
  split; [exact H | exact (arctan_step_when_x_zero _ _ H)].
Defined.

(** ** Finite results and the inclination *)



Lemma correct_rgc_deprojected (coord glx_ctr : SkyCoord) (glx_PA : Angle)
    (w v i d : R) (lu : length_unit) :
  Rgc.xp coord glx_ctr glx_PA = Fin w ->
  Rgc.yp coord glx_ctr glx_PA = Fin v ->
  cos_incl i <> 0 -> 0 <= d ->
  correct_rgc coord glx_ctr glx_PA (mkAngle (Fin i) deg)
    (mkDistance (Fin d) lu) true
  = Ok (mkDistance
          (Fin (sqrt (w * w + v / cos_incl i * (v / cos_incl i))
                * (PI / 10800) * d))
          lu).
Proof.
  intros Hx Hy Hc Hd.
  rewrite correct_rgc_returns by assumption.
  unfold Rgc.obj_radius, Rgc.ypp. rewrite Hx, Hy, radian_Fin.
  simpl np_cos. fold (cos_incl i).
  rewrite np_div_nonzero by assumption. simpl np_mul. simpl np_add.
  rewrite np_sqrt_nonneg by nra.
  reflexivity.
Qed.

Lemma correct_rgc_projected (coord glx_ctr : SkyCoord) (glx_PA glx_incl : Angle)
    (w v d : R) (lu : length_unit) :
  Rgc.xp coord glx_ctr glx_PA = Fin w ->
  Rgc.yp coord glx_ctr glx_PA = Fin v ->
  0 <= d ->
  correct_rgc coord glx_ctr glx_PA glx_incl (mkDistance (Fin d) lu) false
  = Ok (mkDistance (Fin (sqrt (w * w + v * v) * (PI / 10800) * d)) lu).
Proof.
  intros Hx Hy Hd.
  rewrite correct_rgc_returns by assumption.
  unfold Rgc.obj_radius, Rgc.ypp. rewrite Hx, Hy.
  simpl np_mul. simpl np_add.
  rewrite np_sqrt_nonneg by nra.
  reflexivity.
Qed.


Lemma cos_incl_decreasing (i j : R) :
  0 <= i -> i < j -> j < 90 -> cos_incl j < cos_incl i.
Proof.
  intros Hi Hij Hj. pose proof PI_RGT_0.
  unfold cos_incl. simpl. apply cos_decreasing_1; nra.
Qed.

(** The stretched radius grows when the cosine shrinks. *)
Lemma stretched_radius_increasing (w v c1 c2 : R) :
  v <> 0 -> 0 < c2 -> c2 < c1 ->
  sqrt (w * w + v / c1 * (v / c1)) < sqrt (w * w + v / c2 * (v / c2)).
Proof.
  intros Hv Hc2 Hc.
  assert (Hc1 : 0 < c1) by lra.
  assert (Hinv : / c1 < / c2) by (apply Rinv_0_lt_contravar; assumption).
  assert (Hp1 : 0 < / c1) by (apply Rinv_0_lt_compat; assumption).
  assert (Hvv : 0 < v * v) by nra.
  apply sqrt_lt_1_alt. unfold Rdiv. split.
  - nra.
  - assert (/ c1 * / c1 < / c2 * / c2) by nra.
    nra.
Qed.

(** ** The scenario, step by step *)

Lemma scenario_great_circle :
  Spec.great_circle scenario_center scenario_target = deg2rad 0.1.
Proof.
  pose proof PI_RGT_0.
  unfold Spec.great_circle, scenario_target. cbn [ra_deg dec_deg].
  set (d1 := deg2rad (dec_deg scenario_center)).
  replace (deg2rad (dec_deg scenario_center + 0.1)) with (d1 + deg2rad 0.1)
    by (unfold d1, deg2rad; ring).
  rewrite Rminus_diag, cos_0, Rmult_1_r.
  replace (sin d1 * sin (d1 + deg2rad 0.1) + cos d1 * cos (d1 + deg2rad 0.1))
    with (cos (d1 + deg2rad 0.1 - d1)) by (rewrite cos_minus; ring).
  replace (d1 + deg2rad 0.1 - d1) with (deg2rad 0.1) by ring.
  apply acos_cos. unfold deg2rad. lra.
Qed.

Lemma scenario_radius_arcmin : Spec.rad2arcmin (deg2rad 0.1) = 6.
Proof.
  pose proof PI_RGT_0.
  unfold Spec.rad2arcmin, deg2rad.
  assert (E : PI / 180 * (10800 / PI) = 60) by (field; lra).
  rewrite Rmult_assoc, E. lra.
Qed.

Lemma scenario_radian_phi :
  radian (Rgc.phi scenario_target scenario_center scenario_PA)
  = Fin scenario_phi.
Proof.
  unfold scenario_PA. rewrite radian_phi.
  unfold Spec.phi_target. rewrite <- arctan_step_value, scenario_arctan_step.
  simpl. unfold scenario_phi. f_equal. field.
Qed.

Lemma scenario_xp :
  Rgc.xp scenario_target scenario_center scenario_PA
  = Fin (6 * cos scenario_phi).
Proof.
  pose proof PI_RGT_0.
  unfold Rgc.xp. rewrite sky_radius_arcmin, scenario_radian_phi.
  rewrite scenario_great_circle. simpl.
  do 2 f_equal. apply scenario_radius_arcmin.
Qed.

Lemma scenario_yp :
  Rgc.yp scenario_target scenario_center scenario_PA
  = Fin (6 * sin scenario_phi).
Proof.
  pose proof PI_RGT_0.
  unfold Rgc.yp. rewrite sky_radius_arcmin, scenario_radian_phi.
  rewrite scenario_great_circle. simpl.
  do 2 f_equal. apply scenario_radius_arcmin.
Qed.

Lemma scenario_sin_phi_neg : sin scenario_phi < 0.
Proof.
  pose proof PI_RGT_0.
  apply sin_lt_0_var; unfold scenario_phi; lra.
Qed.

(** ** C5: monotonicity in the inclination *)






(** ** C10: the concrete scenario *)

Lemma sin_double_le (t : R) : 0 <= t <= PI -> sin (2 * t) <= 2 * sin t.
Proof.
  intros [H0 H1]. rewrite sin_2a.
  pose proof (sin_ge_0 t H0 H1). pose proof (COS_bound t). nra.
Qed.

(** cos 77.5 degrees = sin 12.5 degrees, and four times that is at least
    sin 50 degrees, which is above sin 30 degrees = 1/2. *)
Lemma cos_incl_scenario_lower : 1 / 8 <= cos_incl 77.5.
Proof.
  pose proof PI_RGT_0.
  unfold cos_incl. simpl unit_scale.
  set (t := 12.5 * (PI / 180)).
  replace (77.5 * (PI / 180)) with (PI / 2 - t) by (unfold t; lra).
  rewrite cos_shift.
  assert (H1 : sin (2 * (2 * t)) <= 2 * sin (2 * t))
    by (apply sin_double_le; unfold t; lra).
  assert (H2 : sin (2 * t) <= 2 * sin t)
    by (apply sin_double_le; unfold t; lra).
  assert (H3 : sin (PI / 6) <= sin (2 * (2 * t)))
    by (apply sin_incr_1; unfold t; lra).
  rewrite sin_PI6 in H3. lra.
Qed.

Lemma cos_incl_zero : cos_incl 0 = 1.
Proof. unfold cos_incl. now rewrite Rmult_0_l, cos_0. Qed.

(** C10. In the scenario (center RA 10h42m44.33s, Dec +41d16m07.5s,
    position angle 37.7 degrees, inclination 77.5 degrees, distance
    783 kpc, target 0.1 degree north of the center) both calls return a
    finite length in kpc; the deprojected one is strictly greater than
    the projected one, and both are positive and below 783. *)
Theorem scenario_deprojected_exceeds_projected :
  exists rd rp,
    correct_rgc scenario_target scenario_center scenario_PA
      (mkAngle (Fin 77.5) deg) (mkDistance (Fin 783) kpc) true
    = Ok (mkDistance (Fin rd) kpc)
    /\ correct_rgc scenario_target scenario_center scenario_PA
         (mkAngle (Fin 77.5) deg) (mkDistance (Fin 783) kpc) false
       = Ok (mkDistance (Fin rp) kpc)
    /\ rp < rd /\ 0 < rp /\ 0 < rd /\ rp < 783 /\ rd < 783.
Proof.
  pose proof PI_RGT_0 as Hpi. pose proof PI_4 as Hpi4.
  pose proof scenario_sin_phi_neg as Hs.
  pose proof cos_incl_scenario_lower as Hc.
  set (w := 6 * cos scenario_phi). set (v := 6 * sin scenario_phi).
  set (c := cos_incl 77.5) in *.
  assert (Hv : v <> 0) by (unfold v; lra).
  assert (Hc1 : c < 1).
  { rewrite <- cos_incl_zero. apply cos_incl_decreasing; lra. }
  exists (sqrt (w * w + v / c * (v / c)) * (PI / 10800) * 783),
         (sqrt (w * w + v * v) * (PI / 10800) * 783).
  split; [| split].
  - apply correct_rgc_deprojected;
      [apply scenario_xp | apply scenario_yp | fold c; lra | lra].
  - apply correct_rgc_projected; [apply scenario_xp | apply scenario_yp | lra].
  - assert (Hp : 0 < sqrt (w * w + v * v)) by (apply sqrt_lt_R0; nra).
    assert (Hlt : sqrt (w * w + v * v) < sqrt (w * w + v / c * (v / c))).
    { replace (v * v) with (v / 1 * (v / 1)) by field.
      apply stretched_radius_increasing; auto; lra. }
    assert (Hub : sqrt (w * w + v / c * (v / c)) < 50).
    { rewrite <- (sqrt_square 50) by lra.
      assert (Hinv : / c <= 8).
      { rewrite <- (Rinv_inv 8). apply Rinv_le_contravar; lra. }
      assert (Hinv0 : 0 < / c) by (apply Rinv_0_lt_compat; lra).
      pose proof (sin_cos_one scenario_phi) as Hsc.
      assert (Hww : w * w <= 36) by (unfold w; nra).
      assert (Hvv : v * v <= 36) by (unfold v; nra).
      assert (Hcc : / c * / c <= 64) by nra.
      apply sqrt_lt_1_alt. unfold Rdiv. split; [nra |].
      assert (v * / c * (v * / c) <= 36 * 64).
      { replace (v * / c * (v * / c)) with (v * v * (/ c * / c)) by ring.
        apply Rmult_le_compat; nra. }
      lra. }
    repeat split; nra.
Qed.

(** ** C9: array input *)

Lemma zip_with_map {A B C D : Type} (f : B -> C -> D) (g : A -> B)
    (h : A -> C) (l : list A) :
  zip_with f (map g l) (map h l) = map (fun a => f (g a) (h a)) l.
Proof.
  induction l as [| a l IH]; simpl; [reflexivity | now rewrite IH].
Qed.

Lemma correct_rgc_array_values (coord : list SkyCoord) (glx_ctr : SkyCoord)
    (glx_PA glx_incl : Angle) (glx_dist : Distance) (deproject : bool) :
  correct_rgc_array coord glx_ctr glx_PA glx_incl glx_dist deproject
  = Distance_new_array
      (map (rgc_value glx_ctr glx_PA glx_incl glx_dist deproject) coord)
      (dunit glx_dist).
Proof.
  unfold correct_rgc_array. f_equal.
  unfold angle_add_array, angle_sub_array, angle_scale_array,
    separation_array, ra_array, dec_array,
    radian_array, to_arcmin_array, to_arcsec_array.
  unfold to_value_array.
  cbn [avalues aaunit].
  destruct deproject;
    repeat (rewrite ?map_map, ?zip_with_map; cbn [avalues aaunit]);
    apply map_ext; intros c; reflexivity.
Qed.

Lemma correct_rgc_value (c glx_ctr : SkyCoord) (glx_PA glx_incl : Angle)
    (glx_dist : Distance) (deproject : bool) :
  correct_rgc c glx_ctr glx_PA glx_incl glx_dist deproject
  = Distance_new (rgc_value glx_ctr glx_PA glx_incl glx_dist deproject c)
      (dunit glx_dist).
Proof. reflexivity. Qed.

(** C9. The call on an array of N coordinates returns exactly when each
    single call returns; it then gives N distances, the i-th being the
    result of the call on the i-th coordinate alone.  It raises only if
    a single call raises. *)
Theorem array_call_is_elementwise (coord : list SkyCoord) (glx_ctr : SkyCoord)
    (glx_PA glx_incl : Angle) (glx_dist : Distance) (deproject : bool) :
  match correct_rgc_array coord glx_ctr glx_PA glx_incl glx_dist deproject with
  | Ok D =>
      length (dvalues D) = length coord
      /\ forall i c,
           nth_error coord i = Some c ->
           exists w,
             nth_error (dvalues D) i = Some w
             /\ correct_rgc c glx_ctr glx_PA glx_incl glx_dist deproject
                = Ok (mkDistance w (daunit D))
  | ValueError =>
      exists c,
        In c coord
        /\ correct_rgc c glx_ctr glx_PA glx_incl glx_dist deproject
           = ValueError
  end.
Proof.
  rewrite correct_rgc_array_values. unfold Distance_new_array.
  set (f := rgc_value glx_ctr glx_PA glx_incl glx_dist deproject).
  destruct (existsb (fun w => np_lt w (Fin 0)) (map f coord)) eqn:E.
  - apply existsb_exists in E. destruct E as [w [Hin Hlt]].
    apply in_map_iff in Hin. destruct Hin as [c [<- Hc]].
    exists c. split; [assumption |].
    rewrite correct_rgc_value. unfold Distance_new. fold f. now rewrite Hlt.
  - cbn [dvalues daunit]. split; [apply length_map |].
    intros i c Hi. exists (f c). split.
    + rewrite nth_error_map, Hi. reflexivity.
    + rewrite correct_rgc_value. unfold Distance_new. fold f.
      destruct (np_lt (f c) (Fin 0)) eqn:Hlt; [| reflexivity].
      assert (Hex : existsb (fun w => np_lt w (Fin 0)) (map f coord) = true).
      { apply existsb_exists. exists (f c). split; [| assumption].
        apply in_map. eapply nth_error_In. eassumption. }
      congruence.
Qed.

(** ** C7: sign and unit of the result *)

(** C7, on the code.  At the center of the scenario, with the distance
    783 kpc, the call returns a distance in kpc whose value is NaN:
    the test [0 <= value] is false. *)
Theorem correct_rgc_center_not_nonnegative :
  exists D,
    correct_rgc scenario_center scenario_center scenario_PA
      (mkAngle (Fin 77.5) deg) (mkDistance (Fin 783) kpc) true = Ok D
    /\ dunit D = kpc
    /\ np_le (Fin 0) (dvalue D) = false.
Proof.
  eexists. split; [apply correct_rgc_at_center |].
  split; reflexivity.
Qed.

(** ** Further properties of [correct_rgc] *)

(** *** The constructor at the end *)

(** X1. With a non-negative galaxy distance the call never raises,
    whatever the angles: it returns a distance in the unit of
    [glx_dist] whose value is not negative. *)
Theorem correct_rgc_never_raises (coord glx_ctr : SkyCoord)
    (glx_PA glx_incl : Angle) (d : R) (lu : length_unit) (deproject : bool) :
  0 <= d ->
  exists D,
    correct_rgc coord glx_ctr glx_PA glx_incl (mkDistance (Fin d) lu) deproject
    = Ok D
    /\ dunit D = lu
    /\ np_lt (dvalue D) (Fin 0) = false.
Proof.
  intros Hd. pose proof PI_RGT_0.
  rewrite correct_rgc_returns by assumption.
  eexists. split; [reflexivity |]. split; [reflexivity |].
  cbn [dvalue]. apply nonneg_or_nan_not_lt.
  apply np_mul_nonneg_or_nan; auto.
  apply np_mul_nonneg_or_nan; [apply np_sqrt_nonneg_or_nan | lra].
Qed.

Lemma correct_rgc_never_raises_witness :
  0 <= 783 /\
  exists D,
    correct_rgc scenario_target scenario_center scenario_PA (incl_deg 77.5)
      (mkDistance (Fin 783) kpc) true = Ok D
    /\ dunit D = kpc
    /\ np_lt (dvalue D) (Fin 0) = false.
Proof.
  split; [lra |].
  apply (correct_rgc_never_raises scenario_target scenario_center scenario_PA
           (incl_deg 77.5) 783 kpc true); lra.
Defined.

Lemma np_mul_rescale (a : npfloat) (d k : R) :
  0 < k -> (a * Fin d * Fin k)%np = (a * Fin (k * d))%np.
Proof.
  intros Hk.
  destruct a as [r | | |]; simpl; try reflexivity.
  - f_equal. ring.
  - rewrite (Rmult_comm k d), Rsign_scale by assumption.
    destruct (Rsign d); simpl; rewrite ?(Rsign_pos k) by assumption;
      reflexivity.
  - rewrite (Rmult_comm k d), Rsign_scale by assumption.
    destruct (Rsign d); simpl; rewrite ?(Rsign_pos k) by assumption;
      reflexivity.
Qed.

(** X4. The result is proportional to the galaxy distance and takes its
    unit from it: multiplying the distance by a positive factor, as a
    change of length unit does, multiplies the returned value by the
    same factor. *)
Theorem correct_rgc_scales_with_distance (coord glx_ctr : SkyCoord)
    (glx_PA glx_incl : Angle) (d k : R) (lu lu' : length_unit)
    (deproject : bool) :
  0 <= d -> 0 < k ->
  exists v,
    correct_rgc coord glx_ctr glx_PA glx_incl (mkDistance (Fin d) lu) deproject
    = Ok (mkDistance v lu)
    /\ correct_rgc coord glx_ctr glx_PA glx_incl
         (mkDistance (Fin (k * d)) lu') deproject
       = Ok (mkDistance (v * Fin k)%np lu').
Proof.
  intros Hd Hk.
  rewrite !correct_rgc_returns by nra.
  eexists. split; [reflexivity |].
  now rewrite np_mul_rescale.
Qed.

Lemma correct_rgc_scales_with_distance_witness :
  0 <= 783 /\ 0 < 1000 /\
  exists v,
    correct_rgc scenario_target scenario_center scenario_PA (incl_deg 77.5)
      (mkDistance (Fin 783) kpc) true
    = Ok (mkDistance v kpc)
    /\ correct_rgc scenario_target scenario_center scenario_PA (incl_deg 77.5)
         (mkDistance (Fin (1000 * 783)) pc) true
       = Ok (mkDistance (v * Fin 1000)%np pc).
Proof.
  split; [lra |]. split; [lra |].
  apply (correct_rgc_scales_with_distance scenario_target scenario_center
           scenario_PA (incl_deg 77.5) 783 1000 kpc pc true); lra.
Defined.

(** X3. The sign of the galaxy distance is not checked on entry: if the
    call with a distance [d > 0] returns a positive number, the call
    with the distance [- d] raises [ValueError] in the constructor. *)
Theorem correct_rgc_negative_distance_raises (coord glx_ctr : SkyCoord)
    (glx_PA glx_incl : Angle) (d r : R) (lu : length_unit) (deproject : bool) :
  0 < d -> 0 < r ->
  correct_rgc coord glx_ctr glx_PA glx_incl (mkDistance (Fin d) lu) deproject
  = Ok (mkDistance (Fin r) lu) ->
  correct_rgc coord glx_ctr glx_PA glx_incl (mkDistance (Fin (- d)) lu)
    deproject
  = ValueError.
Proof.
  intros Hd Hr. unfold correct_rgc, Distance_new. cbn [dvalue dunit].
  destruct (radian (mkAngle
              (Rgc.obj_radius coord glx_ctr glx_PA glx_incl deproject) arcmin))
    as [q | | |]; simpl.
  - destruct (Rlt_dec (q * d) 0); [discriminate |].
    intros E. injection E as E.
    destruct (Rlt_dec (q * - d) 0); [reflexivity | nra].
  - rewrite (Rsign_pos d) by lra. simpl. discriminate.
  - rewrite (Rsign_pos d) by lra. simpl. discriminate.
  - discriminate.
Qed.

Lemma scenario_projected_pos : 0 < scenario_projected.
Proof.
  pose proof PI_RGT_0. pose proof scenario_sin_phi_neg.
  unfold scenario_projected.
  set (w := 6 * cos scenario_phi). set (v := 6 * sin scenario_phi).
  assert (0 < sqrt (w * w + v * v)) by (apply sqrt_lt_R0; unfold v; nra).
  nra.
Qed.

Lemma correct_rgc_negative_distance_raises_witness :
  0 < 783 /\ 0 < scenario_projected
  /\ correct_rgc scenario_target scenario_center scenario_PA (incl_deg 77.5)
       (mkDistance (Fin 783) kpc) false
     = Ok (mkDistance (Fin scenario_projected) kpc)
  /\ correct_rgc scenario_target scenario_center scenario_PA (incl_deg 77.5)
       (mkDistance (Fin (- 783)) kpc) false
     = ValueError.
Proof.
  assert (Hd : 0 < 783) by lra.
  pose proof scenario_projected_pos as Hr.
  assert (E : correct_rgc scenario_target scenario_center scenario_PA
                (incl_deg 77.5) (mkDistance (Fin 783) kpc) false
              = Ok (mkDistance (Fin scenario_projected) kpc))
    by (apply correct_rgc_projected;
        [apply scenario_xp | apply scenario_yp | lra]).
  split; [exact Hd |]. split; [exact Hr |]. split; [exact E |].
  exact (correct_rgc_negative_distance_raises _ _ _ _ _ _ _ _ Hd Hr E).
Defined.

(** *** Finite results *)

Lemma off_singularity_offsets (coord glx_ctr : SkyCoord) :
  off_singularity coord glx_ctr ->
  Spec.x_offset glx_ctr coord <> 0 \/ Spec.y_offset glx_ctr coord <> 0.
Proof.
  unfold off_singularity. rewrite x_value, y_value. simpl.
  intros [H | H]; [left | right]; intros E; apply H; now rewrite E.
Qed.

Lemma arctan_step_finite (coord glx_ctr : SkyCoord) :
  off_singularity coord glx_ctr ->
  exists a, Rgc.arctan_step coord glx_ctr = Fin a.
Proof.
  intros H. apply off_singularity_offsets in H.
  rewrite arctan_step_value.
  destruct (Req_dec (Spec.x_offset glx_ctr coord) 0) as [Ex | Nx].
  - destruct H as [H | H]; [contradiction |].
    rewrite Ex, np_div_zero.
    destruct (Rsign_cases (Spec.y_offset glx_ctr coord))
      as [[Hs E] | [[Hs E] | [Hs E]]]; rewrite E; simpl;
      [eexists; reflexivity | contradiction | eexists; reflexivity].
  - rewrite np_div_nonzero by assumption. eexists. reflexivity.
Qed.

Lemma great_circle_arcmin_nonneg (coord glx_ctr : SkyCoord) :
  0 <= Spec.rad2arcmin (Spec.great_circle glx_ctr coord).
Proof.
  pose proof PI_RGT_0.
  pose proof (acos_bound
    (sin (deg2rad (dec_deg glx_ctr)) * sin (deg2rad (dec_deg coord))
     + cos (deg2rad (dec_deg glx_ctr)) * cos (deg2rad (dec_deg coord))
       * cos (deg2rad (ra_deg glx_ctr) - deg2rad (ra_deg coord)))) as [H0 _].
  unfold Spec.rad2arcmin, Spec.great_circle.
  apply Rmult_le_pos; [exact H0 |].
  apply Rlt_le, Rdiv_lt_0_compat; lra.
Qed.

(** Off the singularity the two rotated components are the separation
    in arcminutes times the cosine and the sine of one angle. *)
Lemma rotated_components (coord glx_ctr : SkyCoord) (pa : R) (u : angle_unit) :
  off_singularity coord glx_ctr ->
  exists p,
    Rgc.xp coord glx_ctr (mkAngle (Fin pa) u)
    = Fin (Spec.rad2arcmin (Spec.great_circle glx_ctr coord) * cos p)
    /\ Rgc.yp coord glx_ctr (mkAngle (Fin pa) u)
       = Fin (Spec.rad2arcmin (Spec.great_circle glx_ctr coord) * sin p).
Proof.
  intros H. destruct (arctan_step_finite _ _ H) as [a Ha].
  rewrite xp_value, yp_value. unfold Spec.x', Spec.y', Spec.phi_target.
  rewrite <- arctan_step_value, Ha. simpl.
  eexists. split; reflexivity.
Qed.

Lemma scenario_off_singularity : off_singularity scenario_target scenario_center.
Proof.
  right. rewrite y_value, scenario_y. simpl.
  intros E. injection E as E. lra.
Qed.

Lemma cos_incl_scenario_nonzero : cos_incl 77.5 <> 0.
Proof. pose proof cos_incl_scenario_lower. lra. Qed.

(** *** Projected and deprojected radius *)

Lemma radian_sky_radius (coord glx_ctr : SkyCoord) :
  radian (Rgc.sky_radius coord glx_ctr)
  = Fin (Spec.great_circle glx_ctr coord).
Proof.
  pose proof PI_RGT_0.
  unfold Rgc.sky_radius. rewrite separation_great_circle.
  unfold radian, to_value, rad2deg. simpl.
  f_equal. field. lra.
Qed.

(** X8. Without deprojection, off the singularity, the result is the
    angular separation in radians times the distance: it lies between 0
    and pi times the distance and depends neither on the position angle
    nor on the inclination. *)
Theorem projected_is_separation_times_distance (coord glx_ctr : SkyCoord)
    (pa d : R) (u : angle_unit) (glx_incl : Angle) (lu : length_unit) :
  off_singularity coord glx_ctr -> 0 <= d ->
  exists s,
    radian (Rgc.sky_radius coord glx_ctr) = Fin s
    /\ 0 <= s <= PI
    /\ correct_rgc coord glx_ctr (mkAngle (Fin pa) u) glx_incl
         (mkDistance (Fin d) lu) false
       = Ok (mkDistance (Fin (s * d)) lu).
Proof.
  intros Hoff Hd. pose proof PI_RGT_0.
  exists (Spec.great_circle glx_ctr coord).
  split; [apply radian_sky_radius |].
  split; [apply acos_bound |].
  destruct (rotated_components coord glx_ctr pa u Hoff) as [p [Hx Hy]].
  rewrite (correct_rgc_projected _ _ _ glx_incl _ _ _ _ Hx Hy Hd).
  pose proof (great_circle_arcmin_nonneg coord glx_ctr) as HA.
  set (A := Spec.rad2arcmin (Spec.great_circle glx_ctr coord)) in *.
  replace (A * cos p * (A * cos p) + A * sin p * (A * sin p))
    with (A * A * (sin p * sin p + cos p * cos p)) by ring.
  rewrite sin_cos_one, Rmult_1_r, sqrt_square by assumption.
  do 3 f_equal. unfold A, Spec.rad2arcmin. field. lra.
Qed.

Lemma projected_is_separation_times_distance_witness :
  off_singularity scenario_target scenario_center /\ 0 <= 783
  /\ exists s,
       radian (Rgc.sky_radius scenario_target scenario_center) = Fin s
       /\ 0 <= s <= PI
       /\ correct_rgc scenario_target scenario_center (mkAngle (Fin 37.7) deg)
            (incl_deg 77.5) (mkDistance (Fin 783) kpc) false
          = Ok (mkDistance (Fin (s * 783)) kpc).
Proof.
  assert (Hd : 0 <= 783) by lra.
  split; [exact scenario_off_singularity |]. split; [exact Hd |].
  exact (projected_is_separation_times_distance scenario_target
           scenario_center 37.7 783 deg (incl_deg 77.5) kpc
           scenario_off_singularity Hd).
Defined.





(** X10. A target on the major axis (minor-axis component exactly 0)
    is left alone by the deprojection, for every inclination whose
    cosine is not zero and every galaxy distance. *)
Theorem major_axis_unaffected_by_deprojection (coord glx_ctr : SkyCoord)
    (glx_PA : Angle) (i : R) (glx_dist : Distance) :
  Rgc.yp coord glx_ctr glx_PA = Fin 0 -> cos_incl i <> 0 ->
  correct_rgc coord glx_ctr glx_PA (incl_deg i) glx_dist true
  = correct_rgc coord glx_ctr glx_PA (incl_deg i) glx_dist false.
Proof.
  intros Hy Hc.
  unfold correct_rgc, Rgc.obj_radius, Rgc.ypp, incl_deg.
  rewrite Hy, radian_Fin. simpl np_cos. fold (cos_incl i).
  rewrite np_div_nonzero by assumption.
  unfold Rdiv. rewrite Rmult_0_l.
  reflexivity.
Qed.

(** The rotated components of the scenario target for any position
    angle in degrees. *)
Lemma scenario_components (pa : R) :
  Rgc.xp scenario_target scenario_center (PA_deg pa)
  = Fin (6 * cos (pa * (PI / 180) - PI))
  /\ Rgc.yp scenario_target scenario_center (PA_deg pa)
     = Fin (6 * sin (pa * (PI / 180) - PI)).
Proof.
  unfold PA_deg. rewrite xp_value, yp_value.
  unfold Spec.x', Spec.y', Spec.phi_target.
  rewrite <- arctan_step_value, scenario_arctan_step.
  rewrite scenario_great_circle, scenario_radius_arcmin. simpl.
  replace (pa * (PI / 180) + - (PI / 2) + - (PI / 2))
    with (pa * (PI / 180) - PI) by field.
  split; reflexivity.
Qed.

Lemma scenario_on_major_axis :
  Rgc.yp scenario_target scenario_center (PA_deg 180) = Fin 0.
Proof.
  pose proof PI_RGT_0.
  destruct (scenario_components 180) as [_ ->].
  replace (180 * (PI / 180) - PI) with 0 by (field; lra).
  rewrite sin_0. f_equal. ring.
Qed.

Lemma major_axis_unaffected_by_deprojection_witness :
  Rgc.yp scenario_target scenario_center (PA_deg 180) = Fin 0
  /\ cos_incl 77.5 <> 0
  /\ correct_rgc scenario_target scenario_center (PA_deg 180) (incl_deg 77.5)
       (mkDistance (Fin 783) kpc) true
     = correct_rgc scenario_target scenario_center (PA_deg 180) (incl_deg 77.5)
         (mkDistance (Fin 783) kpc) false.
Proof.
  split; [exact scenario_on_major_axis |].
  split; [exact cos_incl_scenario_nonzero |].
  exact (major_axis_unaffected_by_deprojection scenario_target scenario_center
           (PA_deg 180) 77.5 (mkDistance (Fin 783) kpc)
           scenario_on_major_axis cos_incl_scenario_nonzero).
Defined.




(** *** Symmetries *)
















(** *** Array input *)

Lemma rgc_value_not_negative (glx_ctr : SkyCoord) (glx_PA glx_incl : Angle)
    (d : R) (lu : length_unit) (deproject : bool) (c : SkyCoord) :
  0 <= d ->
  np_lt (rgc_value glx_ctr glx_PA glx_incl (mkDistance (Fin d) lu) deproject c)
        (Fin 0)
  = false.
Proof.
  intros Hd. pose proof PI_RGT_0.
  unfold rgc_value. rewrite radian_arcmin.
  apply nonneg_or_nan_not_lt.
  apply np_mul_nonneg_or_nan; auto.
  apply np_mul_nonneg_or_nan; [apply np_sqrt_nonneg_or_nan | lra].
Qed.

(** X12. With a non-negative galaxy distance the call on an array never
    raises: it returns as many values as there are coordinates, in the
    unit of the distance, none of them negative; an empty array gives
    an empty result. *)
Theorem correct_rgc_array_never_raises (coord : list SkyCoord)
    (glx_ctr : SkyCoord) (glx_PA glx_incl : Angle) (d : R) (lu : length_unit)
    (deproject : bool) :
  0 <= d ->
  exists D,
    correct_rgc_array coord glx_ctr glx_PA glx_incl (mkDistance (Fin d) lu)
      deproject = Ok D
    /\ length (dvalues D) = length coord
    /\ daunit D = lu
    /\ Forall (fun w => np_lt w (Fin 0) = false) (dvalues D).
Proof.
  intros Hd.
  rewrite correct_rgc_array_values. unfold Distance_new_array.
  set (f := rgc_value glx_ctr glx_PA glx_incl (mkDistance (Fin d) lu)
              deproject).
  assert (Hall : Forall (fun w => np_lt w (Fin 0) = false) (map f coord)).
  { apply Forall_forall. intros w Hin.
    apply in_map_iff in Hin. destruct Hin as [c [<- _]].
    now apply rgc_value_not_negative. }
  assert (Hex : existsb (fun w => np_lt w (Fin 0)) (map f coord) = false).
  { destruct (existsb (fun w => np_lt w (Fin 0)) (map f coord)) eqn:E;
      [| reflexivity].
    apply existsb_exists in E. destruct E as [w [Hin Hlt]].
    rewrite Forall_forall in Hall. rewrite (Hall w Hin) in Hlt.
    discriminate. }
  rewrite Hex. eexists. split; [reflexivity |].
  cbn [dvalues daunit]. split; [apply length_map |].
  split; [reflexivity | exact Hall].
Qed.

Lemma correct_rgc_array_never_raises_witness :
  0 <= 783
  /\ exists D,
       correct_rgc_array [scenario_target; scenario_center] scenario_center
         scenario_PA (incl_deg 77.5) (mkDistance (Fin 783) kpc) true = Ok D
       /\ length (dvalues D) = length [scenario_target; scenario_center]
       /\ daunit D = kpc
       /\ Forall (fun w => np_lt w (Fin 0) = false) (dvalues D).
Proof.
  assert (Hd : 0 <= 783) by lra.
  split; [exact Hd |].
  exact (correct_rgc_array_never_raises [scenario_target; scenario_center]
           scenario_center scenario_PA (incl_deg 77.5) 783 kpc true Hd).
Defined.

(** *** The angle phi *)

(** X13. The arctangent is two-quadrant: whenever phi is a number it
    lies between the position angle minus 180 degrees and the position
    angle, so it never reaches the other half of the circle. *)
Theorem phi_stays_in_half_circle (coord glx_ctr : SkyCoord) (pa p : R)
    (u : angle_unit) :
  radian (Rgc.phi coord glx_ctr (mkAngle (Fin pa) u)) = Fin p ->
  pa * unit_scale u - PI <= p <= pa * unit_scale u.
Proof.
  pose proof PI_RGT_0.
  rewrite radian_phi. unfold Spec.phi_target.
  destruct (Fin (Spec.y_offset glx_ctr coord)
            / Fin (Spec.x_offset glx_ctr coord))%np as [q | | |];
    unfold np_arctan; simpl; intros E; try discriminate;
    injection E as E; subst p.
  - pose proof (atan_bound q). lra.
  - lra.
  - lra.
Qed.

Lemma phi_stays_in_half_circle_witness :
  radian (Rgc.phi scenario_target scenario_center (mkAngle (Fin 37.7) deg))
  = Fin scenario_phi
  /\ 37.7 * unit_scale deg - PI <= scenario_phi <= 37.7 * unit_scale deg.
Proof.
  split; [exact scenario_radian_phi |].
  exact (phi_stays_in_half_circle scenario_target scenario_center 37.7
           scenario_phi deg scenario_radian_phi).
Defined.

(** X14. Only the angles count, not the units they are given in: two
    position angles, and two inclinations, that denote the same angle
    in radians give the same result. *)
Theorem angle_units_do_not_matter (coord glx_ctr : SkyCoord)
    (pa pa' i i' : R) (u u' v v' : angle_unit) (glx_dist : Distance)
    (deproject : bool) :
  pa * unit_scale u = pa' * unit_scale u' ->
  i * unit_scale v = i' * unit_scale v' ->
  correct_rgc coord glx_ctr (mkAngle (Fin pa) u) (mkAngle (Fin i) v) glx_dist
    deproject
  = correct_rgc coord glx_ctr (mkAngle (Fin pa') u') (mkAngle (Fin i') v')
      glx_dist deproject.
Proof.
  intros Hp Hi. unfold correct_rgc.
  now rewrite !obj_radius_value, Hp, Hi.
Qed.

Lemma angle_units_do_not_matter_witness :
  180 * unit_scale deg = PI * unit_scale rad
  /\ 90 * unit_scale deg = 5400 * unit_scale arcmin
  /\ correct_rgc scenario_target scenario_center (mkAngle (Fin 180) deg)
       (mkAngle (Fin 90) deg) (mkDistance (Fin 783) kpc) false
     = correct_rgc scenario_target scenario_center (mkAngle (Fin PI) rad)
         (mkAngle (Fin 5400) arcmin) (mkDistance (Fin 783) kpc) false.
Proof.
  assert (Hp : 180 * unit_scale deg = PI * unit_scale rad)
    by (simpl; field).
  assert (Hi : 90 * unit_scale deg = 5400 * unit_scale arcmin)
    by (simpl; field).
  split; [exact Hp |]. split; [exact Hi |].
  exact (angle_units_do_not_matter scenario_target scenario_center
           180 PI 90 5400 deg rad deg arcmin (mkDistance (Fin 783) kpc) false
           Hp Hi).
Defined.
